(** * Laboratory-4: a versioned task service (src/main.py)

    A shallow embedding of the FastAPI application of [src/main.py]:
    the API-key dependency [validate_api_key], the in-memory store
    [task_db] and the endpoints of the two routers.

    Conventions of the embedding.
    - A Python [str] is a sequence of Unicode code points, [list N].
    - A Python [int] is a [Z].
    - [Optional[T]] is [option T], [None] being Python's [None].
    - An endpoint is a computation over the module-level list [task_db];
      [raise HTTPException(...)] ends it and keeps every mutation made
      before the [raise], as in Python.
    - [find_task_by_id] returns a reference to a dict of [task_db]; the
      reference is the position of that dict in the list, and an
      assignment through it writes the list at that position.
    - [validate_api_key] is the function of the source, on the values of
      its two dependencies; [authenticate] is [Depends(validate_api_key)]
      as a router runs it on a request, the dependencies
      [api_key_header] and [api_key_query] included.
    - A response carries the status code and the [detail] of the
      exception, or the value the endpoint returns. *)

From Stdlib Require Import ZArith NArith Ascii String.
From stdpp Require Import base decidable option numbers list sorting.

Local Open Scope Z_scope.

(** ** Python strings *)

Definition str := list N.

(** A string literal of the source, as code points. *)
Definition lit (s : string) : str := N_of_ascii <$> list_ascii_of_string s.

(** [str.isspace] on one code point: CPython's table of whitespace
    characters (U+0009..U+000D, U+001C..U+0020, U+0085, U+00A0, U+1680,
    U+2000..U+200A, U+2028, U+2029, U+202F, U+205F, U+3000). *)
Definition isspace (c : N) : bool :=
  (((9 <=? c) && (c <=? 13)) || ((28 <=? c) && (c <=? 32))
   || (c =? 133) || (c =? 160) || (c =? 5760)
   || ((8192 <=? c) && (c <=? 8202))
   || (c =? 8232) || (c =? 8233) || (c =? 8239) || (c =? 8287)
   || (c =? 12288))%N.

Fixpoint lstrip (s : str) : str :=
  match s with
  | [] => []
  | c :: s' => if isspace c then lstrip s' else s
  end.

Definition rstrip (s : str) : str := reverse (lstrip (reverse s)).

(** [s.strip()]: leading and trailing whitespace removed. *)
Definition strip (s : str) : str := rstrip (lstrip s).

(** Truth value of a [str]: [not s] holds exactly for the empty string. *)
Definition truthy (s : str) : bool :=
  match s with [] => false | _ :: _ => true end.

(** Truth value of an [Optional[str]]: [None] and [""] are false. *)
Definition truthy_opt (o : option str) : bool :=
  match o with None => false | Some s => truthy s end.

(** [a or b] on [Optional[str]] operands. *)
Definition py_or (a b : option str) : option str :=
  if truthy_opt a then a else b.

(** ** Exceptions and results *)

(** The [detail] of every exception the module raises is a dict with the
    single key ["error"]. *)
Record Detail := { error : string }.

Record HTTPException := { status_code : Z; detail : Detail }.

Definition HTTP_200_OK : Z := 200.
Definition HTTP_201_CREATED : Z := 201.
Definition HTTP_204_NO_CONTENT : Z := 204.
Definition HTTP_403_FORBIDDEN : Z := 403.
Definition HTTP_404_NOT_FOUND : Z := 404.

Inductive Result (A : Type) : Type :=
| Return (a : A)
| Raise (e : HTTPException).
Arguments Return {A} a.
Arguments Raise {A} e.

(** ** The API-key dependency *)

Section Auth.
(** [API_KEY = os.getenv("LAB4_API_KEY")]; the module raises
    [RuntimeError] at import time when [not API_KEY]. *)
Variable API_KEY : str.

Definition invalid_api_key : HTTPException :=
  {| status_code := HTTP_403_FORBIDDEN;
     detail := {| error := "Invalid API Key" |} |}.

(** The two arguments are the values of the dependencies
    [api_key_header] (the [X-API-Key] header) and [api_key_query] (the
    [api-key] query parameter, [None] by default). *)
Definition validate_api_key (header_api_key query_api_key : option str)
  : Result (option str) :=
  let api_key := py_or header_api_key query_api_key in
  if decide (api_key ≠ Some API_KEY) then Raise invalid_api_key
  else Return api_key.
End Auth.

(** The module's first statements: [API_KEY = os.getenv("LAB4_API_KEY")]
    and the guard [if not API_KEY: raise RuntimeError(...)]. The argument
    is what [os.getenv] gave, [None] for an unset variable; the result is
    the key the module goes on with, or the message of the [RuntimeError]
    that stops the import. *)
Definition load_api_key (getenv : option str) : string + str :=
  match getenv with
  | Some API_KEY =>
      if negb (truthy API_KEY)
      then inl "API Key not set in the environment variables"%string
      else inr API_KEY
  | None => inl "API Key not set in the environment variables"%string
  end.

(** The exception of FastAPI's [APIKeyHeader]: its [detail] is a plain
    string, not a dict. *)
Record SecurityException := {
  security_status_code : Z;
  security_detail : string;
}.

Definition not_authenticated : SecurityException :=
  {| security_status_code := HTTP_403_FORBIDDEN;
     security_detail := "Not authenticated" |}.

(** [api_key_header = APIKeyHeader(name="X-API-Key")], called on the
    [X-API-Key] header of the request ([None] when the request has none).
    The source leaves [auto_error] at its default [True], with which
    [fastapi.security.APIKeyHeader] (fastapi 0.115) raises
    [HTTPException(403, "Not authenticated")] when [not api_key] and
    returns the header otherwise. *)
Definition api_key_header (x_api_key : option str)
  : SecurityException + str :=
  match x_api_key with
  | Some api_key =>
      if negb (truthy api_key) then inl not_authenticated else inr api_key
  | None => inl not_authenticated
  end.

(** [api_key_query]: the [api-key] query parameter, [None] by default. *)
Definition api_key_query (api_key : option str) : option str := api_key.

(** What [Depends(validate_api_key)] makes of a request. *)
Inductive Authentication :=
| Authenticated (api_key : option str)
| NotAuthenticated (e : SecurityException)
| Forbidden (e : HTTPException).

(** [Depends(validate_api_key)], the dependency of both routers, on a
    request with the header [x_api_key] and the query parameter [api_key]:
    the two sub-dependencies are resolved first, and an exception of one
    of them ends the request before [validate_api_key] is called. *)
Definition authenticate (API_KEY : str) (x_api_key api_key : option str)
  : Authentication :=
  match api_key_header x_api_key with
  | inl e => NotAuthenticated e
  | inr header_api_key =>
      match validate_api_key API_KEY (Some header_api_key)
              (api_key_query api_key) with
      | Return k => Authenticated k
      | Raise e => Forbidden e
      end
  end.

(** ** Tasks and request models *)

(** A dict of [task_db]. [is_finished] holds whatever [TaskCreate] or
    [TaskUpdate] carried, an [Optional[bool]]. *)
Record Task := {
  task_id : Z;
  task_title : str;
  task_desc : str;
  is_finished : option bool;
}.

Global Instance Task_eq_dec : EqDecision Task.
Proof. solve_decision. Defined.

Module TaskCreate.
(** [is_finished] is [False] when the body omits it. *)
Record t := mk {
  task_title : str;
  task_desc : str;
  is_finished : option bool;
}.
End TaskCreate.

Module TaskUpdate.
(** Every field is [None] when the body omits it or gives [null]. *)
Record t := mk {
  task_title : option str;
  task_desc : option str;
  is_finished : option bool;
}.
End TaskUpdate.

(** The module-level list at import time. *)
Definition task_db : list Task :=
  [ {| task_id := 1;
       task_title := lit "Laboratory Activity";
       task_desc := lit "Create Lab Act 2";
       is_finished := Some false |} ].

(** ** Endpoints as computations over the store *)

Definition Handler (A : Type) : Type := list Task → Result A * list Task.

Definition ret {A} (a : A) : Handler A := λ db, (Return a, db).

Definition raise {A} (e : HTTPException) : Handler A := λ db, (Raise e, db).

Definition bind {A B} (m : Handler A) (k : A → Handler B) : Handler B :=
  λ db, match m db with
        | (Return a, db') => k a db'
        | (Raise e, db') => (Raise e, db')
        end.

Declare Scope handler_scope.
Delimit Scope handler_scope with handler.
Notation "x <- m ;; k" := (bind m (λ x, k))
  (at level 20, m at level 99, k at level 200, only parsing) : handler_scope.
Notation "m ;; k" := (bind m (λ _, k))
  (at level 100, k at level 200, only parsing, right associativity)
  : handler_scope.
Bind Scope handler_scope with Handler.

(** The current value of [task_db]. *)
Definition get_db : Handler (list Task) := λ db, (Return db, db).

(** [task_db.append(x)]. *)
Definition append (x : Task) : Handler unit := λ db, (Return tt, db ++ [x]).

(** [l.remove(x)] on a list: the first element equal to [x] goes. Python
    raises [ValueError] when there is none; [delete_task_v2] passes an
    element of the list (lemma [remove_found]), and [list_remove] leaves
    the list as it is in the other case. *)
Fixpoint list_remove (x : Task) (l : list Task) : list Task :=
  match l with
  | [] => []
  | y :: l' => if decide (y = x) then l' else y :: list_remove x l'
  end.

Definition remove (x : Task) : Handler unit :=
  λ db, (Return tt, list_remove x db).

(** [ref[key] = value] through the reference [i]: [f] is the assignment on
    the dict, [t] the dict as the caller holds it. The caller goes on with
    the updated dict, and [task_db] holds it at position [i]. *)
Definition setitem (i : nat) (f : Task → Task) (t : Task) : Handler Task :=
  λ db, (Return (f t), <[i := f t]> db).

Definition set_task_title (v : str) (t : Task) : Task :=
  {| task_id := task_id t; task_title := v;
     task_desc := task_desc t; is_finished := is_finished t |}.

Definition set_task_desc (v : str) (t : Task) : Task :=
  {| task_id := task_id t; task_title := task_title t;
     task_desc := v; is_finished := is_finished t |}.

Definition set_is_finished (v : option bool) (t : Task) : Task :=
  {| task_id := task_id t; task_title := task_title t;
     task_desc := task_desc t; is_finished := v |}.

(** [find_task_by_id]: the first dict whose ["task_id"] is [id], with its
    position, or [None]. *)
Definition find_task_by_id (id : Z) (db : list Task) : option (nat * Task) :=
  list_find (λ t, task_id t = id) db.

(** Bodies the endpoints return. *)
Inductive Data :=
| DataTask (t : Task)
| DataList (l : list Task).

Record Envelope := {
  status : string;
  data : Data;
  message : option string;
}.

Definition ok (d : Data) : Envelope :=
  {| status := "ok"; data := d; message := None |}.

Definition task_not_found : HTTPException :=
  {| status_code := HTTP_404_NOT_FOUND;
     detail := {| error := "Task not found" |} |}.

Definition bad_request (msg : string) : HTTPException :=
  {| status_code := 400; detail := {| error := msg |} |}.

(** [max(l)] on a non-empty list of integers, [x] being its head. *)
Definition py_max (x : Z) (l : list Z) : Z :=
  foldl (λ max_item item, if max_item <? item then item else max_item) x l.

(** [max([t["task_id"] for t in task_db]) + 1 if task_db else 1]. *)
Definition new_task_id (db : list Task) : Z :=
  match task_id <$> db with
  | [] => 1
  | x :: l => py_max x l + 1
  end.

Section Endpoints.
Local Open Scope handler_scope.

(** A dict with four keys is true, [None] is false: [if task] asks
    whether [find_task_by_id] found one. *)
Definition get_task_v1 (id : Z) : Handler Envelope :=
  db <- get_db;;
  match find_task_by_id id db with
  | Some (_, task) => ret (ok (DataTask task))
  | None => raise task_not_found
  end.

Definition get_task_v2 (id : Z) : Handler Envelope :=
  db <- get_db;;
  match find_task_by_id id db with
  | Some (_, task) => ret (ok (DataTask task))
  | None => raise task_not_found
  end.

Definition create_task_v2 (task : TaskCreate.t) : Handler Envelope :=
  if negb (truthy (strip (TaskCreate.task_title task)))
     || negb (truthy (strip (TaskCreate.task_desc task)))
  then raise (bad_request "Task title and description cannot be empty")
  else
    db <- get_db;;
    let new_task :=
      {| task_id := new_task_id db;
         task_title := TaskCreate.task_title task;
         task_desc := TaskCreate.task_desc task;
         is_finished := TaskCreate.is_finished task |} in
    append new_task;;
    ret (ok (DataTask new_task)).

Definition update_task_v2 (id : Z) (task : TaskUpdate.t) : Handler Envelope :=
  db <- get_db;;
  match find_task_by_id id db with
  | None => raise task_not_found
  | Some (i, existing_task) =>
      existing_task <-
        match TaskUpdate.task_title task with
        | Some title =>
            if negb (truthy (strip title))
            then raise (bad_request "Task title cannot be empty")
            else setitem i (set_task_title title) existing_task
        | None => ret existing_task
        end;;
      existing_task <-
        match TaskUpdate.task_desc task with
        | Some desc =>
            if negb (truthy (strip desc))
            then raise (bad_request "Task description cannot be empty")
            else setitem i (set_task_desc desc) existing_task
        | None => ret existing_task
        end;;
      existing_task <-
        match TaskUpdate.is_finished task with
        | Some done => setitem i (set_is_finished (Some done)) existing_task
        | None => ret existing_task
        end;;
      ret (ok (DataTask existing_task))
  end.

Definition delete_task_v2 (id : Z) : Handler unit :=
  db <- get_db;;
  match find_task_by_id id db with
  | None => raise task_not_found
  | Some (_, task) => remove task;; ret tt
  end.

Definition get_all_tasks_v2 : Handler Envelope :=
  db <- get_db;;
  match db with
  | [] => ret {| status := "ok"; data := DataList [];
                 message := Some "No tasks available"%string |}
  | _ :: _ => ret (ok (DataList db))
  end.
End Endpoints.

(** ** Routes: an endpoint under its decorator *)

(** What the client gets: the [status_code] of the decorator and the
    returned value, or the status and detail of the exception. *)
Record Response (A : Type) := {
  http_status : Z;
  body : Detail + A;
}.
Arguments http_status {A} _.
Arguments body {A} _.

Definition route {A} (code : Z) (endpoint : Handler A)
  : list Task → Response A * list Task :=
  λ db, match endpoint db with
        | (Return a, db') => ({| http_status := code; body := inr a |}, db')
        | (Raise e, db') =>
            ({| http_status := status_code e; body := inl (detail e) |}, db')
        end.

Module apiv1.
Definition get_task (id : Z) := route HTTP_200_OK (get_task_v1 id).
End apiv1.

Module apiv2.
Definition get_task (id : Z) := route HTTP_200_OK (get_task_v2 id).
Definition post_tasks (task : TaskCreate.t) :=
  route HTTP_201_CREATED (create_task_v2 task).
Definition patch_task (id : Z) (task : TaskUpdate.t) :=
  route HTTP_200_OK (update_task_v2 id task).
Definition delete_task (id : Z) := route HTTP_204_NO_CONTENT (delete_task_v2 id).
Definition get_tasks := route HTTP_200_OK get_all_tasks_v2.
End apiv2.

(** ** Runs of the service *)

(** The requests that reach an endpoint (after [validate_api_key]). *)
Inductive Request :=
| GetTaskV1 (id : Z)
| GetTaskV2 (id : Z)
| PostTask (task : TaskCreate.t)
| PatchTask (id : Z) (task : TaskUpdate.t)
| DeleteTask (id : Z)
| GetTasks.

(** The store after one request. *)
Definition exec (r : Request) (db : list Task) : list Task :=
  match r with
  | GetTaskV1 id => snd (apiv1.get_task id db)
  | GetTaskV2 id => snd (apiv2.get_task id db)
  | PostTask task => snd (apiv2.post_tasks task db)
  | PatchTask id task => snd (apiv2.patch_task id task db)
  | DeleteTask id => snd (apiv2.delete_task id db)
  | GetTasks => snd (apiv2.get_tasks db)
  end.

Definition exec_all (rs : list Request) (db : list Task) : list Task :=
  foldl (λ db r, exec r db) db rs.

(** The stores the service can be in: [task_db] as seeded, and what any
    request makes of a reachable store. *)
Inductive reachable : list Task → Prop :=
| reachable_init : reachable task_db
| reachable_step r db : reachable db → reachable (exec r db).

Definition is_delete (r : Request) : bool :=
  match r with DeleteTask _ => true | _ => false end.

Definition ids (db : list Task) : list Z := task_id <$> db.

(** A task whose title and description are non-empty after trimming. *)
Definition nonblank (t : Task) : Prop :=
  strip (task_title t) ≠ [] ∧ strip (task_desc t) ≠ [].

(** The dict [create_task_v2] builds from the request on the store [db]. *)
Definition created (task : TaskCreate.t) (db : list Task) : Task :=
  {| task_id := new_task_id db;
     task_title := TaskCreate.task_title task;
     task_desc := TaskCreate.task_desc task;
     is_finished := TaskCreate.is_finished task |}.

(** * Properties *)

(** ** Strings *)

Lemma truthy_false (s : str) : truthy s = false ↔ s = [].
Proof. by destruct s. Qed.

Lemma truthy_true (s : str) : truthy s = true ↔ s ≠ [].
Proof. by destruct s. Qed.

Lemma lstrip_nil (s : str) : lstrip s = [] ↔ forallb isspace s = true.
Proof.
  induction s as [|c s IH]; simpl; [done|].
  destruct (isspace c) eqn:Hc; simpl; [done|].
  split; intros; discriminate.
Qed.

Lemma forallb_isspace_reverse (s : str) :
  forallb isspace (reverse s) = forallb isspace s.
Proof.
  apply eq_true_iff_eq. rewrite !forallb_forall.
  split; intros H c Hc; apply H; apply list_elem_of_In;
    apply list_elem_of_In in Hc; by apply elem_of_reverse.
Qed.

(** What [lstrip] leaves starts with a character that is no whitespace. *)
Lemma lstrip_head (s : str) (c : N) (r : str) :
  lstrip s = c :: r → isspace c = false.
Proof.
  induction s as [|d s IH]; simpl; [done|].
  destruct (isspace d) eqn:Hd; [done|]. by intros [= <- <-].
Qed.

(** [s.strip()] is empty exactly when [s] is empty or made of whitespace
    only. *)
Lemma strip_nil (s : str) : strip s = [] ↔ forallb isspace s = true.
Proof.
  unfold strip, rstrip. split.
  - intros H. apply (f_equal reverse) in H.
    rewrite reverse_involutive in H. cbn in H.
    apply lstrip_nil in H. rewrite forallb_isspace_reverse in H.
    destruct (lstrip s) as [|c r] eqn:Hl; [by apply lstrip_nil|].
    apply lstrip_head in Hl. simpl in H. by rewrite Hl in H.
  - intros H. apply lstrip_nil in H. by rewrite H.
Qed.

(** ** Authentication *)

Section AuthFacts.
Variable API_KEY : str.

Lemma py_or_header (h : str) (q : option str) :
  h ≠ [] → py_or (Some h) q = Some h.
Proof. by destruct h. Qed.

Lemma validate_api_key_accepts (h q : option str) :
  py_or h q = Some API_KEY →
  validate_api_key API_KEY h q = Return (Some API_KEY).
Proof.
  intros H. unfold validate_api_key. rewrite H.
  by destruct (decide (Some API_KEY ≠ Some API_KEY)).
Qed.

Lemma validate_api_key_rejects (h q : option str) :
  py_or h q ≠ Some API_KEY →
  validate_api_key API_KEY h q = Raise invalid_api_key.
Proof.
  intros H. unfold validate_api_key.
  by destruct (decide (py_or h q ≠ Some API_KEY)).
Qed.

(** With a non-empty header the query parameter is never looked at. *)
Lemma validate_api_key_header (h : str) (q : option str) :
  h ≠ [] →
  validate_api_key API_KEY (Some h) q =
    if decide (h = API_KEY) then Return (Some h) else Raise invalid_api_key.
Proof.
  intros Hh. destruct (decide (h = API_KEY)) as [-> | Hne].
  - apply validate_api_key_accepts. by apply py_or_header.
  - apply validate_api_key_rejects. rewrite py_or_header by done. congruence.
Qed.
End AuthFacts.

(** A non-empty header goes to [validate_api_key] as it is, and decides. *)
Lemma authenticate_header (API_KEY h : str) (q : option str) :
  h ≠ [] →
  authenticate API_KEY (Some h) q
  = if decide (h = API_KEY) then Authenticated (Some h)
    else Forbidden invalid_api_key.
Proof.
  intros Hh. unfold authenticate, api_key_header.
  apply truthy_true in Hh as Ht. rewrite Ht. simpl.
  rewrite validate_api_key_header by done. by case_decide.
Qed.

Lemma authenticate_no_header (API_KEY : str) (h q : option str) :
  h = None ∨ h = Some [] →
  authenticate API_KEY h q = NotAuthenticated not_authenticated.
Proof. by intros [-> | ->]. Qed.

(** Claim C1 against the code: a request that presents the configured
    secret via the [api-key] query parameter, with no [X-API-Key] header or
    an empty one, is not authenticated. [api_key_header] refuses it with
    403 and ["Not authenticated"] before [validate_api_key] is called, so
    the fallback [header_api_key or query_api_key] never reaches the query
    parameter, and the refusal does not carry
    [{"error": "Invalid API Key"}]. Shown for every secret and every query
    value, and at the secret ["secret"] sent as the query parameter. *)
Theorem authenticate_query_alone_refused :
  (∀ (API_KEY : str) (q : option str),
     authenticate API_KEY None q = NotAuthenticated not_authenticated
     ∧ authenticate API_KEY (Some []) q = NotAuthenticated not_authenticated)
  ∧ authenticate (lit "secret") None (Some (lit "secret"))
    = NotAuthenticated not_authenticated
  ∧ authenticate (lit "secret") None (Some (lit "secret"))
    ≠ Authenticated (Some (lit "secret"))
  ∧ security_detail not_authenticated ≠ error (detail invalid_api_key).
Proof.
  split_and!.
  - intros API_KEY q. split; by apply authenticate_no_header; auto.
  - by apply authenticate_no_header; auto.
  - by rewrite (authenticate_no_header _ None) by auto.
  - by vm_compute.
Qed.

(** Claim C2: when the [X-API-Key] header and the [api-key] query
    parameter are both present, non-empty and different, the outcome is
    that of the header alone: success when the header equals the secret,
    403 otherwise, whatever the query parameter holds. *)
Theorem validate_api_key_header_precedence
    (API_KEY h q : str) :
  h ≠ [] → q ≠ [] → h ≠ q →
  validate_api_key API_KEY (Some h) (Some q)
  = (if decide (h = API_KEY) then Return (Some h) else Raise invalid_api_key)
  ∧ ∀ q' : option str,
      validate_api_key API_KEY (Some h) q'
      = validate_api_key API_KEY (Some h) (Some q).
Proof.
  intros Hh _ _. split.
  - by apply validate_api_key_header.
  - intros q'. by rewrite !validate_api_key_header.
Qed.

Lemma validate_api_key_header_precedence_witness :
  validate_api_key (lit "secret") (Some (lit "wrong")) (Some (lit "secret"))
  = Raise invalid_api_key
  ∧ validate_api_key (lit "secret") (Some (lit "secret")) (Some (lit "wrong"))
    = Return (Some (lit "secret")).
Proof.
  split.
  - apply (validate_api_key_header_precedence
             (lit "secret") (lit "wrong") (lit "secret")); done.
  - apply (validate_api_key_header_precedence
             (lit "secret") (lit "secret") (lit "wrong")); done.
Defined.

(** ** The store *)

(** Running an endpoint: unfold the computation down to the store. *)
Ltac run :=
  unfold apiv1.get_task, apiv2.get_task, apiv2.post_tasks, apiv2.patch_task,
    apiv2.delete_task, apiv2.get_tasks, route,
    get_task_v1, get_task_v2, create_task_v2, update_task_v2, delete_task_v2,
    get_all_tasks_v2, bind, get_db, ret, raise, append, remove, setitem;
  simpl.

Lemma find_task_by_id_None (id : Z) (db : list Task) :
  find_task_by_id id db = None ↔ id ∉ ids db.
Proof.
  unfold find_task_by_id, ids. rewrite list_find_None, Forall_forall.
  rewrite list_elem_of_fmap. split.
  - intros H (t & -> & Ht). by apply (H t).
  - intros H t Ht Hid. apply H. by exists t.
Qed.

Lemma find_task_by_id_Some (id : Z) (db : list Task) (i : nat) (t : Task) :
  find_task_by_id id db = Some (i, t) →
  db !! i = Some t ∧ task_id t = id.
Proof.
  unfold find_task_by_id. rewrite list_find_Some. by intros (? & ? & _).
Qed.

Lemma find_task_by_id_elem_of (id : Z) (db : list Task) :
  id ∈ ids db → ∃ i t, find_task_by_id id db = Some (i, t).
Proof.
  intros Hin. destruct (find_task_by_id id db) as [[i t]|] eqn:Hf; [eauto|].
  by apply find_task_by_id_None in Hf.
Qed.

(** The dict [find_task_by_id] returns is the one [list.remove] takes out. *)
Lemma remove_found (id : Z) (db : list Task) (i : nat) (t : Task) :
  find_task_by_id id db = Some (i, t) → list_remove t db = delete i db.
Proof.
  unfold find_task_by_id. revert i.
  induction db as [|y db IH]; intros i; simpl; [done|].
  destruct (decide (task_id y = id)) as [Hy | Hy].
  - intros [= <- <-]. by rewrite decide_True.
  - destruct (list_find _ db) as [[j u]|] eqn:Hf; [|done].
    intros [= <- <-]. simpl.
    apply list_find_Some in Hf as Hu. destruct Hu as (_ & Hu & _).
    rewrite decide_False by congruence. f_equal. by apply IH.
Qed.

Lemma ids_insert (db : list Task) (i : nat) (t : Task) :
  ids db !! i = Some (task_id t) → ids (<[i := t]> db) = ids db.
Proof.
  intros H. unfold ids in *. rewrite list_fmap_insert. by apply list_insert_id.
Qed.

Lemma ids_lookup (db : list Task) (i : nat) (t : Task) :
  db !! i = Some t → ids db !! i = Some (task_id t).
Proof. intros H. unfold ids. by rewrite list_lookup_fmap, H. Qed.

Lemma ids_delete (db : list Task) (i : nat) :
  ids (delete i db) = delete i (ids db).
Proof. apply list_fmap_delete. Qed.

(** [max]: an element of the list, and a bound of it. *)
Lemma py_max_ge (x : Z) (l : list Z) :
  x ≤ py_max x l ∧ ∀ y, y ∈ l → y ≤ py_max x l.
Proof.
  unfold py_max. revert x. induction l as [|z l IH]; intros x; simpl.
  - split; [lia|]. by intros y ?%elem_of_nil.
  - destruct (Z.ltb_spec x z) as [Hlt | Hge].
    + destruct (IH z) as [H1 H2]. split; [lia|].
      intros y [-> | Hy]%elem_of_cons; auto.
    + destruct (IH x) as [H1 H2]. split; [lia|].
      intros y [-> | Hy]%elem_of_cons; [lia | auto].
Qed.

Lemma py_max_elem_of (x : Z) (l : list Z) : py_max x l ∈ x :: l.
Proof.
  unfold py_max. revert x. induction l as [|z l IH]; intros x; simpl.
  - by left.
  - destruct (x <? z).
    + right. apply IH.
    + specialize (IH x). apply elem_of_cons in IH as [-> | H].
      * by left.
      * by right; right.
Qed.

Lemma new_task_id_nil : new_task_id [] = 1.
Proof. done. Qed.

(** The id of a new task on a non-empty store is one more than the
    greatest id in the store. *)
Lemma new_task_id_max (db : list Task) :
  db ≠ [] →
  ∃ m, m ∈ ids db ∧ (∀ x, x ∈ ids db → x ≤ m) ∧ new_task_id db = 1 + m.
Proof.
  intros Hne. unfold new_task_id, ids.
  destruct db as [|t db]; [done|]. simpl.
  destruct (py_max_ge (task_id t) (task_id <$> db)) as [Hhd Htl].
  exists (py_max (task_id t) (task_id <$> db)). split_and!.
  - apply py_max_elem_of.
  - intros x [-> | Hx]%elem_of_cons; [done | by apply Htl].
  - change (list_fmap Task Z task_id db) with (task_id <$> db). lia.
Qed.

Lemma new_task_id_gt (db : list Task) (x : Z) :
  x ∈ ids db → x < new_task_id db.
Proof.
  intros Hx. destruct db as [|t db]; [by apply elem_of_nil in Hx|].
  destruct (new_task_id_max (t :: db)) as (m & _ & Hm & ->); [done|].
  specialize (Hm x Hx). lia.
Qed.

Lemma new_task_id_fresh (db : list Task) : new_task_id db ∉ ids db.
Proof. intros H%new_task_id_gt. lia. Qed.

Lemma route_snd {A} (code : Z) (endpoint : Handler A) (db : list Task) :
  snd (route code endpoint db) = snd (endpoint db).
Proof. unfold route. by destruct (endpoint db) as [[a|e] db']. Qed.

(** *** Create *)

Lemma post_tasks_created (task : TaskCreate.t) (db db' : list Task)
    (resp : Response Envelope) :
  apiv2.post_tasks task db = (resp, db') →
  http_status resp = HTTP_201_CREATED →
  resp = {| http_status := HTTP_201_CREATED;
            body := inr (ok (DataTask (created task db))) |}
  ∧ db' = db ++ [created task db].
Proof.
  run. destruct (_ || _); simpl; intros [= <- <-]; [done|]. by intros _.
Qed.

Lemma post_tasks_blank (task : TaskCreate.t) (db : list Task) :
  strip (TaskCreate.task_title task) = []
  ∨ strip (TaskCreate.task_desc task) = [] →
  apiv2.post_tasks task db
  = ({| http_status := 400;
        body := inl {| error := "Task title and description cannot be empty" |} |},
     db).
Proof.
  intros H. run.
  assert (negb (truthy (strip (TaskCreate.task_title task)))
          || negb (truthy (strip (TaskCreate.task_desc task))) = true) as ->;
    [|done].
  apply orb_true_iff. destruct H as [-> | ->]; auto.
Qed.

(** *** Update *)

Lemma update_task_v2_ids (id : Z) (task : TaskUpdate.t) (db : list Task) :
  ids (snd (update_task_v2 id task db)) = ids db.
Proof.
  run. destruct (find_task_by_id id db) as [[i t]|] eqn:Hf; [|done].
  apply find_task_by_id_Some in Hf as [Hi _]. apply ids_lookup in Hi.
  destruct task as [[title|] [desc|] [fin|]]; simpl;
    repeat (match goal with
            | |- context [truthy ?s] => destruct (truthy s); simpl
            end);
    rewrite ?list_insert_insert_eq; first [done | by apply ids_insert].
Qed.

(** *** Delete *)

Lemma delete_task_v2_found (id : Z) (db : list Task) (i : nat) (t : Task) :
  find_task_by_id id db = Some (i, t) →
  delete_task_v2 id db = (Return tt, delete i db).
Proof. intros Hf. run. rewrite Hf. simpl. by rewrite (remove_found id db i t). Qed.

Lemma delete_task_v2_missing (id : Z) (db : list Task) :
  find_task_by_id id db = None →
  delete_task_v2 id db = (Raise task_not_found, db).
Proof. intros Hf. run. by rewrite Hf. Qed.

Lemma delete_task_v2_ids (id : Z) (db : list Task) :
  ids (snd (delete_task_v2 id db)) `sublist_of` ids db.
Proof.
  destruct (find_task_by_id id db) as [[i t]|] eqn:Hf.
  - rewrite (delete_task_v2_found id db i t) by done. simpl.
    rewrite ids_delete. apply sublist_delete.
  - by rewrite delete_task_v2_missing.
Qed.

(** With pairwise distinct ids, the id of a deleted position is gone. *)
Lemma ids_delete_not_elem_of (db : list Task) (i : nat) (t : Task) :
  NoDup (ids db) → db !! i = Some t → task_id t ∉ ids (delete i db).
Proof.
  intros Hnd Hi. rewrite ids_delete, delete_take_drop.
  apply ids_lookup in Hi. rewrite <-(take_drop_middle _ _ _ Hi) in Hnd.
  apply NoDup_app in Hnd as (_ & Hl & Hr%NoDup_cons).
  intros [H | H]%elem_of_app.
  - apply (Hl _ H). by left.
  - by destruct Hr.
Qed.

(** *** Runs *)

Lemma get_task_v1_snd (id : Z) (db : list Task) : snd (get_task_v1 id db) = db.
Proof. run. by destruct (find_task_by_id id db) as [[i t]|]. Qed.

Lemma get_task_v2_snd (id : Z) (db : list Task) : snd (get_task_v2 id db) = db.
Proof. run. by destruct (find_task_by_id id db) as [[i t]|]. Qed.

Lemma get_all_tasks_v2_snd (db : list Task) : snd (get_all_tasks_v2 db) = db.
Proof. run. by destruct db. Qed.

Lemma create_task_v2_snd (task : TaskCreate.t) (db : list Task) :
  snd (create_task_v2 task db) = db
  ∨ snd (create_task_v2 task db) = db ++ [created task db].
Proof. run. destruct (_ || _); auto. Qed.

(** A request other than a delete keeps the ids of the store, in place, and
    may add one at the end. *)
Lemma exec_ids_prefix (r : Request) (db : list Task) :
  is_delete r = false → ids db `prefix_of` ids (exec r db).
Proof.
  intros Hr. destruct r as [id|id|task|id task|id|]; simpl in *;
    try discriminate; unfold apiv1.get_task, apiv2.get_task, apiv2.post_tasks,
      apiv2.patch_task, apiv2.get_tasks; rewrite route_snd.
  - by rewrite get_task_v1_snd.
  - by rewrite get_task_v2_snd.
  - destruct (create_task_v2_snd task db) as [-> | ->]; [done|].
    unfold ids. rewrite fmap_app. by apply prefix_app_r.
  - by rewrite update_task_v2_ids.
  - by rewrite get_all_tasks_v2_snd.
Qed.

Lemma exec_all_ids_prefix (rs : list Request) (db : list Task) :
  forallb (λ r, negb (is_delete r)) rs = true →
  ids db `prefix_of` ids (exec_all rs db).
Proof.
  unfold exec_all. revert db. induction rs as [|r rs IH]; intros db; simpl.
  - done.
  - intros [Hr Hrs]%andb_true_iff. apply negb_true_iff in Hr.
    etrans; [by apply exec_ids_prefix | by apply IH].
Qed.

(** Every request keeps the ids of the store pairwise distinct. *)
Lemma exec_NoDup (r : Request) (db : list Task) :
  NoDup (ids db) → NoDup (ids (exec r db)).
Proof.
  intros Hnd. destruct r as [id|id|task|id task|id|]; simpl;
    unfold apiv1.get_task, apiv2.get_task, apiv2.post_tasks,
      apiv2.patch_task, apiv2.delete_task, apiv2.get_tasks; rewrite route_snd.
  - by rewrite get_task_v1_snd.
  - by rewrite get_task_v2_snd.
  - destruct (create_task_v2_snd task db) as [-> | ->]; [done|].
    unfold ids. rewrite fmap_app. apply NoDup_app. split_and!; [done| |].
    + intros x Hx [-> | []%elem_of_nil]%elem_of_cons.
      by apply (new_task_id_fresh db).
    + apply NoDup_singleton.
  - by rewrite update_task_v2_ids.
  - apply (sublist_NoDup _ (ids db)); [done | apply delete_task_v2_ids].
  - by rewrite get_all_tasks_v2_snd.
Qed.

Lemma exec_all_NoDup (rs : list Request) (db : list Task) :
  NoDup (ids db) → NoDup (ids (exec_all rs db)).
Proof.
  unfold exec_all. revert db. induction rs as [|r rs IH]; intros db Hnd; simpl.
  - done.
  - by apply IH, exec_NoDup.
Qed.

Lemma task_db_NoDup : NoDup (ids task_db).
Proof. apply NoDup_singleton. Qed.

Lemma reachable_NoDup (db : list Task) : reachable db → NoDup (ids db).
Proof.
  induction 1 as [|r db _ IH]; [apply task_db_NoDup | by apply exec_NoDup].
Qed.

Lemma reachable_exec_all (rs : list Request) (db : list Task) :
  reachable db → reachable (exec_all rs db).
Proof.
  unfold exec_all. revert db. induction rs as [|r rs IH]; intros db Hdb; simpl.
  - done.
  - apply IH. by constructor.
Qed.

Lemma reachable_inv (db : list Task) :
  reachable db → ∃ rs, db = exec_all rs task_db.
Proof.
  induction 1 as [|r db _ [rs ->]].
  - by exists [].
  - exists (rs ++ [r]). unfold exec_all. by rewrite foldl_app.
Qed.

(** ** The claims on the store *)

(** Claim C3: a successful create gives the new task the id 1 on an empty
    store and one more than the greatest id of the store otherwise, an id
    no task of the store has; and when a second create succeeds later, with
    any requests but deletes in between, its task has a greater id, again
    one no task of the store has. *)
Theorem create_task_v2_assigns_next_id
    (task : TaskCreate.t) (db db1 : list Task) (resp : Response Envelope) :
  apiv2.post_tasks task db = (resp, db1) →
  http_status resp = HTTP_201_CREATED →
  ∃ t1 : Task,
    body resp = inr (ok (DataTask t1))
    ∧ db1 = db ++ [t1]
    ∧ (db = [] → task_id t1 = 1)
    ∧ (db ≠ [] →
       ∃ m, m ∈ ids db ∧ (∀ x, x ∈ ids db → x ≤ m) ∧ task_id t1 = 1 + m)
    ∧ (task_id t1 ∉ ids db)
    ∧ ∀ (rs : list Request) (task2 : TaskCreate.t) (db2 : list Task)
        (resp2 : Response Envelope),
        forallb (λ r, negb (is_delete r)) rs = true →
        apiv2.post_tasks task2 (exec_all rs db1) = (resp2, db2) →
        http_status resp2 = HTTP_201_CREATED →
        ∃ t2 : Task,
          body resp2 = inr (ok (DataTask t2))
          ∧ db2 = exec_all rs db1 ++ [t2]
          ∧ task_id t1 < task_id t2
          ∧ task_id t2 ∉ ids (exec_all rs db1).
Proof.
  intros Hrun Hst.
  destruct (post_tasks_created _ _ _ _ Hrun Hst) as [-> ->].
  exists (created task db). split_and!; try done.
  - by intros ->.
  - apply new_task_id_max.
  - apply new_task_id_fresh.
  - intros rs task2 db2 resp2 Hrs Hrun2 Hst2.
    destruct (post_tasks_created _ _ _ _ Hrun2 Hst2) as [-> ->].
    eexists. split_and!; try done.
    + simpl. apply new_task_id_gt.
      eapply elem_of_prefix; [|by apply exec_all_ids_prefix].
      unfold ids. rewrite fmap_app. apply elem_of_app. right. by left.
    + apply new_task_id_fresh.
Qed.

Lemma create_task_v2_assigns_next_id_witness :
  ∃ t1 : Task,
    task_id t1 = 2
    ∧ snd (apiv2.post_tasks (TaskCreate.mk (lit "T") (lit "D") (Some false))
             task_db) = task_db ++ [t1].
Proof.
  destruct (create_task_v2_assigns_next_id
              (TaskCreate.mk (lit "T") (lit "D") (Some false)) task_db
              (task_db ++ [created (TaskCreate.mk (lit "T") (lit "D") (Some false)) task_db])
              {| http_status := HTTP_201_CREATED;
                 body := inr (ok (DataTask (created (TaskCreate.mk (lit "T") (lit "D") (Some false)) task_db))) |})
    as (t1 & Hbody & Hdb & _); [reflexivity | reflexivity |].
  exists t1. injection Hbody as <-. split; reflexivity.
Defined.

(** Claim C4: a create whose title, or whose description, is empty after
    trimming (the string is empty or holds whitespace only) fails with 400
    and ["Task title and description cannot be empty"], and the store is
    the same list afterwards. *)
Theorem create_task_v2_rejects_blank (task : TaskCreate.t) (db : list Task) :
  (strip (TaskCreate.task_title task) = []
   ∨ strip (TaskCreate.task_desc task) = []
   ∨ forallb isspace (TaskCreate.task_title task) = true
   ∨ forallb isspace (TaskCreate.task_desc task) = true) →
  apiv2.post_tasks task db
  = ({| http_status := 400;
        body := inl {| error := "Task title and description cannot be empty" |} |},
     db).
Proof.
  intros H. apply post_tasks_blank. rewrite !strip_nil in *. tauto.
Qed.

Lemma create_task_v2_rejects_blank_witness :
  apiv2.post_tasks (TaskCreate.mk (lit " ") (lit "D") (Some false)) task_db
  = ({| http_status := 400;
        body := inl {| error := "Task title and description cannot be empty" |} |},
     task_db)
  ∧ apiv2.post_tasks (TaskCreate.mk (lit "T") [] (Some false)) task_db
    = ({| http_status := 400;
          body := inl {| error := "Task title and description cannot be empty" |} |},
       task_db).
Proof.
  split.
  - apply (create_task_v2_rejects_blank
             (TaskCreate.mk (lit " ") (lit "D") (Some false)) task_db).
    left. reflexivity.
  - apply (create_task_v2_rejects_blank
             (TaskCreate.mk (lit "T") [] (Some false)) task_db).
    right. left. reflexivity.
Defined.

(** Claim C5, as stated, fails: a title that is present and non-null in
    the payload but blank does not overwrite the field. On the seeded store
    the update of task 1 with the title [" "] is refused with 400 and the
    task keeps its title. *)
Lemma update_task_v2_blank_title_kept :
  let task := TaskUpdate.mk (Some (lit " ")) None None in
  (∃ t, find_task_by_id 1 task_db = Some (0%nat, t))
  ∧ TaskUpdate.task_title task = Some (lit " ")
  ∧ apiv2.patch_task 1 task task_db
    = ({| http_status := 400;
          body := inl {| error := "Task title cannot be empty" |} |},
       task_db)
  ∧ task_title <$> snd (apiv2.patch_task 1 task task_db)
    = [lit "Laboratory Activity"]
  ∧ lit "Laboratory Activity" ≠ lit " ".
Proof.
  cbv zeta. split_and!; [by eexists | done | by vm_compute | by vm_compute |].
  by vm_compute.
Qed.

(** Claim C5, amended: for every task the store holds and every payload
    whose title and description, where supplied, are non-empty after
    trimming, update returns 200 with the merged record and writes it in
    place: each of title, description and done that is present and non-null
    overwrites the field, every absent field and the id keep their values,
    no other task changes, and with no field supplied the record and the
    store are unchanged. *)
Theorem update_task_v2_patch_merge
    (id : Z) (task : TaskUpdate.t) (db : list Task) (i : nat) (t : Task) :
  find_task_by_id id db = Some (i, t) →
  (∀ title, TaskUpdate.task_title task = Some title → strip title ≠ []) →
  (∀ desc, TaskUpdate.task_desc task = Some desc → strip desc ≠ []) →
  ∃ t' : Task,
    apiv2.patch_task id task db
    = ({| http_status := HTTP_200_OK; body := inr (ok (DataTask t')) |},
       <[i := t']> db)
    ∧ task_id t' = task_id t
    ∧ task_title t' = default (task_title t) (TaskUpdate.task_title task)
    ∧ task_desc t' = default (task_desc t) (TaskUpdate.task_desc task)
    ∧ is_finished t'
      = match TaskUpdate.is_finished task with
        | Some done => Some done
        | None => is_finished t
        end
    ∧ (task = TaskUpdate.mk None None None → t' = t ∧ <[i := t']> db = db).
Proof.
  intros Hf Htitle Hdesc. apply find_task_by_id_Some in Hf as Hi.
  destruct Hi as [Hi _]. run. rewrite Hf.
  destruct task as [[title|] [desc|] [fin|]]; simpl in *;
    try (specialize (Htitle _ eq_refl); apply truthy_true in Htitle;
         rewrite Htitle; simpl);
    try (specialize (Hdesc _ eq_refl); apply truthy_true in Hdesc;
         rewrite Hdesc; simpl);
    rewrite ?list_insert_insert_eq;
    try (eexists; split_and!; [reflexivity | done ..]).
  exists t. rewrite list_insert_id by done. by split_and!.
Qed.

Lemma update_task_v2_patch_merge_witness :
  ∃ t' : Task,
    apiv2.patch_task 1 (TaskUpdate.mk None None (Some true)) task_db
    = ({| http_status := HTTP_200_OK; body := inr (ok (DataTask t')) |}, [t'])
    ∧ task_title t' = lit "Laboratory Activity"
    ∧ task_desc t' = lit "Create Lab Act 2"
    ∧ is_finished t' = Some true.
Proof.
  destruct (update_task_v2_patch_merge 1 (TaskUpdate.mk None None (Some true))
              task_db 0%nat
              {| task_id := 1; task_title := lit "Laboratory Activity";
                 task_desc := lit "Create Lab Act 2";
                 is_finished := Some false |})
    as (t' & Hrun & _ & Ht & Hd & Hf & _);
    [reflexivity | discriminate | discriminate |].
  exists t'. split_and!; assumption.
Defined.

(** Claim C6: an update of an id no task of the store has fails with 404
    and [{"error": "Task not found"}], whatever the payload (blank fields
    included), and the store is the same list afterwards. *)
Theorem update_task_v2_missing (id : Z) (task : TaskUpdate.t) (db : list Task) :
  id ∉ ids db →
  apiv2.patch_task id task db
  = ({| http_status := HTTP_404_NOT_FOUND;
        body := inl {| error := "Task not found" |} |},
     db).
Proof. intros Hid%find_task_by_id_None. run. by rewrite Hid. Qed.

Lemma update_task_v2_missing_witness :
  apiv2.patch_task 7 (TaskUpdate.mk (Some (lit " ")) None None) task_db
  = ({| http_status := HTTP_404_NOT_FOUND;
        body := inl {| error := "Task not found" |} |},
     task_db).
Proof.
  apply (update_task_v2_missing 7 (TaskUpdate.mk (Some (lit " ")) None None)
           task_db).
  vm_compute. intros H. inversion H as [|? ? ? H']; inversion H'.
Defined.

(** Claim C7: the v2 list operation always returns 200 and leaves the
    store alone. On the empty store the body is
    [{"status": "ok", "data": [], "message": "No tasks available"}]; on a
    non-empty store it is [{"status": "ok", "data": task_db}], the tasks in
    the order of the list, to whose end create appends: after a successful
    create the listing is the former listing followed by the new task. *)
Theorem get_all_tasks_v2_lists_store (db : list Task) :
  (∃ e : Envelope,
     apiv2.get_tasks db = ({| http_status := HTTP_200_OK; body := inr e |}, db))
  ∧ apiv2.get_tasks []
    = ({| http_status := HTTP_200_OK;
          body := inr {| status := "ok"; data := DataList [];
                         message := Some "No tasks available"%string |} |},
       [])
  ∧ (db ≠ [] →
     apiv2.get_tasks db
     = ({| http_status := HTTP_200_OK;
           body := inr {| status := "ok"; data := DataList db;
                          message := None |} |},
        db))
  ∧ (∀ (task : TaskCreate.t) (resp : Response Envelope) (db' : list Task),
       apiv2.post_tasks task db = (resp, db') →
       http_status resp = HTTP_201_CREATED →
       ∃ t : Task,
         body resp = inr (ok (DataTask t))
         ∧ apiv2.get_tasks db'
           = ({| http_status := HTTP_200_OK;
                 body := inr (ok (DataList (db ++ [t]))) |},
              db')).
Proof.
  split_and!.
  - run. destruct db; eauto.
  - done.
  - intros Hne. run. by destruct db.
  - intros task resp db' Hrun Hst.
    destruct (post_tasks_created _ _ _ _ Hrun Hst) as [-> ->].
    eexists. split; [done|]. run.
    by destruct (db ++ [created task db]) eqn:Happ;
      [apply app_eq_nil in Happ as [_ [=]]|].
Qed.

(** Claim C8: in a store the service can be in, deleting an id some task
    has returns 204 with an empty body and takes that task out of the
    list; no task has the id afterwards, and a read-one of the id gets 404
    and [{"error": "Task not found"}] on the v1 and on the v2 route. *)
Theorem delete_task_v2_then_get (id : Z) (db : list Task) :
  reachable db →
  id ∈ ids db →
  ∃ (i : nat) (t : Task),
    find_task_by_id id db = Some (i, t)
    ∧ apiv2.delete_task id db
      = ({| http_status := HTTP_204_NO_CONTENT; body := inr tt |}, delete i db)
    ∧ (id ∉ ids (delete i db))
    ∧ apiv1.get_task id (delete i db)
      = ({| http_status := HTTP_404_NOT_FOUND;
            body := inl {| error := "Task not found" |} |},
         delete i db)
    ∧ apiv2.get_task id (delete i db)
      = ({| http_status := HTTP_404_NOT_FOUND;
            body := inl {| error := "Task not found" |} |},
         delete i db).
Proof.
  intros Hnd%reachable_NoDup Hin.
  destruct (find_task_by_id_elem_of id db Hin) as (i & t & Hf).
  apply find_task_by_id_Some in Hf as Hi. destruct Hi as [Hi Hid].
  assert (id ∉ ids (delete i db)) as Hgone.
  { rewrite <-Hid. by apply ids_delete_not_elem_of. }
  apply find_task_by_id_None in Hgone as Hnone.
  exists i, t. split_and!; [done | | done | |].
  - unfold apiv2.delete_task, route.
    by rewrite (delete_task_v2_found id db i t).
  - run. by rewrite Hnone.
  - run. by rewrite Hnone.
Qed.

Lemma delete_task_v2_then_get_witness :
  apiv2.delete_task 1 task_db
  = ({| http_status := HTTP_204_NO_CONTENT; body := inr tt |}, [])
  ∧ http_status (fst (apiv1.get_task 1 [])) = HTTP_404_NOT_FOUND
  ∧ http_status (fst (apiv2.get_task 1 [])) = HTTP_404_NOT_FOUND.
Proof.
  destruct (delete_task_v2_then_get 1 task_db)
    as (i & t & Hf & Hdel & _ & H1 & H2);
    [apply reachable_init | by left |].
  injection Hf as <- <-.
  split_and!;
    [ exact Hdel
    | exact (f_equal (λ x, http_status (fst x)) H1)
    | exact (f_equal (λ x, http_status (fst x)) H2) ].
Defined.

(** Claim C9: after any sequence of requests on the seeded store (creates,
    updates, deletes and reads, accepted or refused), the ids in the store
    are pairwise distinct: two positions of the list whose tasks have the
    same id are one position. *)
Theorem task_db_ids_unique (rs : list Request) :
  let db := exec_all rs task_db in
  reachable db
  ∧ NoDup (ids db)
  ∧ ∀ (i j : nat) (t u : Task),
      db !! i = Some t → db !! j = Some u → task_id t = task_id u → i = j.
Proof.
  intros db.
  assert (reachable db) as Hr by apply reachable_exec_all, reachable_init.
  apply reachable_NoDup in Hr as Hnd. split_and!; [done..|].
  intros i j t u Hi%ids_lookup Hj%ids_lookup Heq.
  rewrite <-Heq in Hj. by apply (NoDup_lookup _ _ _ _ Hnd Hi Hj).
Qed.

(** Claim C10: an update can fail with 400 and still change the store.
    For every task the store holds, a payload with a title that is
    non-empty after trimming and a description that is blank gets 400 and
    ["Task description cannot be empty"], and the store then holds the
    task with the new title: the title is assigned before the description
    is checked. On the seeded store such a request leaves a store that
    differs from the one before. *)
Theorem update_task_v2_400_after_title
    (id : Z) (db : list Task) (i : nat) (t : Task)
    (title desc : str) (done : option bool) :
  find_task_by_id id db = Some (i, t) →
  strip title ≠ [] →
  strip desc = [] →
  apiv2.patch_task id (TaskUpdate.mk (Some title) (Some desc) done) db
  = ({| http_status := 400;
        body := inl {| error := "Task description cannot be empty" |} |},
     <[i := set_task_title title t]> db)
  ∧ <[i := set_task_title title t]> db !! i = Some (set_task_title title t)
  ∧ find_task_by_id id (<[i := set_task_title title t]> db)
    = Some (i, set_task_title title t)
  ∧ task_title (set_task_title title t) = title
  ∧ ∃ (id0 : Z) (task0 : TaskUpdate.t),
      http_status (fst (apiv2.patch_task id0 task0 task_db)) = 400
      ∧ snd (apiv2.patch_task id0 task0 task_db) ≠ task_db.
Proof.
  intros Hf Htitle%truthy_true Hdesc.
  apply find_task_by_id_Some in Hf as Hi. destruct Hi as [Hi Hid].
  assert (i < length db)%nat as Hlt by by eapply lookup_lt_Some.
  split_and!.
  - run. by rewrite Hf, Htitle, Hdesc.
  - by apply list_lookup_insert_eq.
  - unfold find_task_by_id in *. apply list_find_insert_Some.
    right. left. apply list_find_Some in Hf as (_ & _ & Hleast).
    by split_and!.
  - done.
  - exists 1, (TaskUpdate.mk (Some (lit "T")) (Some (lit " ")) None).
    split; by vm_compute.
Qed.

Lemma update_task_v2_400_after_title_witness :
  apiv2.patch_task 1 (TaskUpdate.mk (Some (lit "T")) (Some (lit " ")) None)
    task_db
  = ({| http_status := 400;
        body := inl {| error := "Task description cannot be empty" |} |},
     [ {| task_id := 1; task_title := lit "T";
          task_desc := lit "Create Lab Act 2"; is_finished := Some false |} ]).
Proof.
  apply (update_task_v2_400_after_title 1 task_db 0%nat
           {| task_id := 1; task_title := lit "Laboratory Activity";
              task_desc := lit "Create Lab Act 2";
              is_finished := Some false |}
           (lit "T") (lit " ") None);
    [reflexivity | discriminate | reflexivity].
Defined.


(** * Further properties of the endpoints *)

(** ** Lookups in a changed store *)

(** Writing position [i] with a dict of the same id: every lookup finds
    the same position as before, and the new dict at position [i]. *)
Lemma find_task_by_id_insert
    (id' : Z) (db : list Task) (i : nat) (t t' : Task) :
  db !! i = Some t →
  task_id t' = task_id t →
  find_task_by_id id' (<[i := t']> db)
  = (λ r : nat * Task, (r.1, if decide (r.1 = i) then t' else r.2))
      <$> find_task_by_id id' db.
Proof.
  unfold find_task_by_id. revert i.
  induction db as [|y db IH]; intros [|i] Hi Hid; simplify_eq/=.
  - rewrite Hid. case_decide; [done|].
    by destruct (list_find _ db) as [[j u]|].
  - case_decide; [done|]. rewrite (IH i) by done.
    destruct (list_find _ db) as [[j u]|]; [|done]. simpl.
    destruct (decide (j = i)) as [-> | Hne].
    + by rewrite decide_True.
    + by rewrite decide_False by lia.
Qed.

Lemma find_task_by_id_insert_same
    (id : Z) (db : list Task) (i : nat) (t t' : Task) :
  find_task_by_id id db = Some (i, t) →
  task_id t' = task_id t →
  find_task_by_id id (<[i := t']> db) = Some (i, t').
Proof.
  intros Hf Hid. apply find_task_by_id_Some in Hf as Hi. destruct Hi as [Hi _].
  rewrite (find_task_by_id_insert id db i t t') by done.
  rewrite Hf. simpl. by rewrite decide_True.
Qed.

Lemma find_task_by_id_insert_other
    (id' : Z) (db : list Task) (i : nat) (t t' : Task) :
  db !! i = Some t →
  task_id t' = task_id t →
  id' ≠ task_id t →
  find_task_by_id id' (<[i := t']> db) = find_task_by_id id' db.
Proof.
  intros Hi Hid Hne. rewrite (find_task_by_id_insert id' db i t t') by done.
  destruct (find_task_by_id id' db) as [[j u]|] eqn:Hf; [|done]. simpl.
  apply find_task_by_id_Some in Hf as [Hj Hu].
  rewrite decide_False; [done|]. intros ->. congruence.
Qed.

(** Whatever [update_task_v2] does to the store of a task it found, it is
    a write at the position of that task, of a dict with the same id. *)
Lemma update_task_v2_store
    (id : Z) (task : TaskUpdate.t) (db : list Task) (i : nat) (t : Task) :
  find_task_by_id id db = Some (i, t) →
  ∃ t' : Task,
    snd (update_task_v2 id task db) = <[i := t']> db
    ∧ task_id t' = task_id t.
Proof.
  intros Hf. apply find_task_by_id_Some in Hf as Hi. destruct Hi as [Hi _].
  run. rewrite Hf.
  destruct task as [[title|] [desc|] [fin|]]; simpl;
    repeat (match goal with
            | |- context [truthy ?s] => destruct (truthy s); simpl
            end);
    rewrite ?list_insert_insert_eq;
    first [ by eexists; split; [reflexivity|]
          | by exists t; rewrite list_insert_id ].
Qed.

(** Taking out the first task with the id [id] leaves every lookup of
    another id with the task it had. *)
Lemma find_task_by_id_delete
    (id id' : Z) (db : list Task) (i : nat) (t : Task) :
  find_task_by_id id db = Some (i, t) →
  id' ≠ id →
  snd <$> find_task_by_id id' (delete i db)
  = snd <$> find_task_by_id id' db.
Proof.
  unfold find_task_by_id. revert i.
  induction db as [|y db IH]; intros i; simpl; [done|].
  destruct (decide (task_id y = id)) as [Hy | Hy].
  - intros [= <- <-] Hne. simpl. rewrite decide_False by congruence.
    by destruct (list_find (λ t0, task_id t0 = id') db) as [[j u]|].
  - destruct (list_find (λ t0, task_id t0 = id) db) as [[j u]|] eqn:Hf;
      [|done].
    intros [= <- <-] Hne. simpl. case_decide; [done|].
    specialize (IH j eq_refl Hne).
    destruct (list_find _ (delete j db)) as [[j1 u1]|],
             (list_find (λ t0, task_id t0 = id') db) as [[j2 u2]|];
      by simplify_eq/=.
Qed.

Lemma find_task_by_id_snoc_other (id' : Z) (db : list Task) (t : Task) :
  task_id t ≠ id' →
  find_task_by_id id' (db ++ [t]) = find_task_by_id id' db.
Proof.
  intros Hne. unfold find_task_by_id.
  destruct (list_find (λ t0, task_id t0 = id') db) as [[j u]|] eqn:Hf.
  - by apply list_find_app_l.
  - rewrite list_find_app_r by done. simpl. by rewrite decide_False.
Qed.

Lemma find_task_by_id_snoc_new (db : list Task) (t : Task) :
  task_id t ∉ ids db →
  find_task_by_id (task_id t) (db ++ [t]) = Some (length db, t).
Proof.
  intros Hnew%find_task_by_id_None. unfold find_task_by_id in *.
  rewrite list_find_app_r by done. simpl. by rewrite decide_True.
Qed.

(** With pairwise distinct ids, a task is the first one with its id. *)
Lemma find_task_by_id_lookup (db : list Task) (i : nat) (t : Task) :
  NoDup (ids db) →
  db !! i = Some t →
  find_task_by_id (task_id t) db = Some (i, t).
Proof.
  intros Hnd Hi. unfold find_task_by_id. apply list_find_Some.
  split_and!; [done..|]. intros j u Hj Hlt Heq.
  apply ids_lookup in Hi, Hj. rewrite Heq in Hj.
  pose proof (NoDup_lookup _ _ _ _ Hnd Hi Hj). lia.
Qed.

(** What a successful [update_task_v2] returns is the dict it left in the
    store, at the position of the task it found. *)
Lemma update_task_v2_returned
    (id : Z) (task : TaskUpdate.t) (db db' : list Task) (i : nat) (t : Task)
    (e : Envelope) :
  find_task_by_id id db = Some (i, t) →
  update_task_v2 id task db = (Return e, db') →
  ∃ t' : Task,
    e = ok (DataTask t') ∧ db' = <[i := t']> db ∧ task_id t' = task_id t.
Proof.
  intros Hf. apply find_task_by_id_Some in Hf as Hi. destruct Hi as [Hi _].
  run. rewrite Hf.
  destruct task as [[title|] [desc|] [fin|]]; simpl;
    repeat (match goal with
            | |- context [truthy ?s] => destruct (truthy s); simpl
            end);
    rewrite ?list_insert_insert_eq; intros [= <- <-];
    first [ by eexists; split_and!; [reflexivity | reflexivity |]
          | by exists t; rewrite list_insert_id ].
Qed.

(** A read-one depends on the store through [find_task_by_id] alone, and
    on the dict it finds, not on its position. *)
Lemma get_task_congr (id : Z) (db1 db2 : list Task) :
  snd <$> find_task_by_id id db1 = snd <$> find_task_by_id id db2 →
  fst (apiv1.get_task id db1) = fst (apiv1.get_task id db2)
  ∧ fst (apiv2.get_task id db1) = fst (apiv2.get_task id db2).
Proof.
  run. by destruct (find_task_by_id id db1) as [[j1 u1]|],
                   (find_task_by_id id db2) as [[j2 u2]|];
    intros ?; simplify_eq/=.
Qed.

Lemma get_task_found (id : Z) (db : list Task) (i : nat) (t : Task) :
  find_task_by_id id db = Some (i, t) →
  apiv1.get_task id db
  = ({| http_status := HTTP_200_OK; body := inr (ok (DataTask t)) |}, db)
  ∧ apiv2.get_task id db
    = ({| http_status := HTTP_200_OK; body := inr (ok (DataTask t)) |}, db).
Proof. intros Hf. run. by rewrite Hf. Qed.

Lemma get_task_missing (id : Z) (db : list Task) :
  find_task_by_id id db = None →
  apiv1.get_task id db
  = ({| http_status := HTTP_404_NOT_FOUND;
        body := inl {| error := "Task not found" |} |}, db)
  ∧ apiv2.get_task id db
    = ({| http_status := HTTP_404_NOT_FOUND;
          body := inl {| error := "Task not found" |} |}, db).
Proof. intros Hf. run. by rewrite Hf. Qed.

(** ** Start-up and authentication *)

(** With the key the module loads with, a request is authenticated
    exactly when its [X-API-Key] header is that key. A request without the
    header, or with an empty one, is refused with 403 and
    ["Not authenticated"]; one with another header is refused with 403 and
    [{"error": "Invalid API Key"}]; and the [api-key] query parameter
    changes the outcome of no request. *)
Theorem load_api_key_then_authenticate
    (getenv : option str) (API_KEY : str) (h q : option str) :
  load_api_key getenv = inr API_KEY →
  (authenticate API_KEY h q = Authenticated (Some API_KEY) ↔ h = Some API_KEY)
  ∧ (h = None ∨ h = Some [] →
     authenticate API_KEY h q = NotAuthenticated not_authenticated)
  ∧ (∀ s : str, h = Some s → s ≠ [] → s ≠ API_KEY →
     authenticate API_KEY h q = Forbidden invalid_api_key)
  ∧ ∀ q' : option str, authenticate API_KEY h q' = authenticate API_KEY h q.
Proof.
  intros Hload.
  assert (API_KEY ≠ []) as Hset.
  { destruct getenv as [[|c k]|]; simplify_eq/=. done. }
  split_and!.
  - split.
    + destruct h as [[|c s]|]; [done | | done].
      rewrite authenticate_header by done.
      case_decide; [congruence | discriminate].
    + intros ->. by rewrite authenticate_header, decide_True.
  - apply authenticate_no_header.
  - intros s -> Hs Hne. by rewrite authenticate_header, decide_False.
  - intros q'. destruct h as [[|c s]|]; [done | | done].
    by rewrite !authenticate_header.
Qed.

Lemma load_api_key_then_authenticate_witness :
  authenticate (lit "secret") (Some (lit "secret")) None
  = Authenticated (Some (lit "secret"))
  ∧ authenticate (lit "secret") None (Some (lit "secret"))
    = NotAuthenticated not_authenticated
  ∧ authenticate (lit "secret") (Some (lit "wrong")) (Some (lit "secret"))
    = Forbidden invalid_api_key.
Proof.
  destruct (load_api_key_then_authenticate (Some (lit "secret"))
              (lit "secret") (Some (lit "secret")) None eq_refl)
    as ([_ Hok] & _).
  destruct (load_api_key_then_authenticate (Some (lit "secret"))
              (lit "secret") None (Some (lit "secret")) eq_refl)
    as (_ & Hnone & _).
  destruct (load_api_key_then_authenticate (Some (lit "secret"))
              (lit "secret") (Some (lit "wrong")) (Some (lit "secret"))
              eq_refl)
    as (_ & _ & Hwrong & _).
  split_and!.
  - apply Hok. reflexivity.
  - apply Hnone. left. reflexivity.
  - apply (Hwrong (lit "wrong")); [reflexivity | discriminate | discriminate].
Defined.

(** ** Read-one *)

(** Both read-one endpoints answer 200 with the first task of the list
    that has the id, when some task has it, and 404 with
    [{"error": "Task not found"}] when none has; neither changes the
    store. *)
Theorem get_task_first_match (id : Z) (db : list Task) :
  (id ∈ ids db →
   ∃ (i : nat) (t : Task),
     db !! i = Some t
     ∧ task_id t = id
     ∧ (∀ (j : nat) (u : Task),
          db !! j = Some u → (j < i)%nat → task_id u ≠ id)
     ∧ apiv1.get_task id db
       = ({| http_status := HTTP_200_OK; body := inr (ok (DataTask t)) |}, db)
     ∧ apiv2.get_task id db
       = ({| http_status := HTTP_200_OK; body := inr (ok (DataTask t)) |}, db))
  ∧ (id ∉ ids db →
     apiv1.get_task id db
     = ({| http_status := HTTP_404_NOT_FOUND;
           body := inl {| error := "Task not found" |} |}, db)
     ∧ apiv2.get_task id db
       = ({| http_status := HTTP_404_NOT_FOUND;
             body := inl {| error := "Task not found" |} |}, db)).
Proof.
  split.
  - intros (i & t & Hf)%find_task_by_id_elem_of.
    destruct (get_task_found id db i t Hf) as [H1 H2].
    unfold find_task_by_id in Hf.
    apply list_find_Some in Hf as (Hi & Hid & Hleast).
    exists i, t. split_and!; [done | done | | done | done].
    intros j u Hj Hlt. by apply (Hleast j).
  - intros Hf%find_task_by_id_None. by apply get_task_missing.
Qed.

(** Every task of a listing can be fetched by its id: in a store the
    service can be in, a read-one of the id of a listed task answers 200
    with that very task, on both routes. *)
Theorem get_all_tasks_v2_then_get_task (db : list Task) (t : Task) :
  reachable db →
  (∃ e : Envelope,
     body (fst (apiv2.get_tasks db)) = inr e
     ∧ ∃ l : list Task, data e = DataList l ∧ t ∈ l) →
  apiv1.get_task (task_id t) db
  = ({| http_status := HTTP_200_OK; body := inr (ok (DataTask t)) |}, db)
  ∧ apiv2.get_task (task_id t) db
    = ({| http_status := HTTP_200_OK; body := inr (ok (DataTask t)) |}, db).
Proof.
  intros Hnd%reachable_NoDup (e & He & l & Hl & Ht).
  assert (t ∈ db) as Hin.
  { revert He. run. destruct db as [|u db]; simpl.
    - intros [= <-]. simpl in Hl. injection Hl as <-. by apply elem_of_nil in Ht.
    - intros [= <-]. simpl in Hl. by injection Hl as <-. }
  apply list_elem_of_lookup in Hin as [i Hi].
  apply (get_task_found _ _ i). by apply find_task_by_id_lookup.
Qed.

Lemma get_all_tasks_v2_then_get_task_witness :
  ∃ t : Task,
    task_id t = 1
    ∧ apiv2.get_task 1 task_db
      = ({| http_status := HTTP_200_OK; body := inr (ok (DataTask t)) |},
         task_db).
Proof.
  exists {| task_id := 1; task_title := lit "Laboratory Activity";
            task_desc := lit "Create Lab Act 2"; is_finished := Some false |}.
  split; [reflexivity|].
  apply (get_all_tasks_v2_then_get_task task_db
           {| task_id := 1; task_title := lit "Laboratory Activity";
              task_desc := lit "Create Lab Act 2";
              is_finished := Some false |}).
  - apply reachable_init.
  - eexists. split; [reflexivity|]. eexists. split; [reflexivity|]. by left.
Defined.

(** ** Create, then read *)

(** After a successful create, a read-one of the new id answers 200 with
    the task the create returned, on both routes; the task carries the
    title, the description and the done flag of the request as they were
    sent, untrimmed. *)
Theorem create_task_v2_then_get_task
    (task : TaskCreate.t) (db db' : list Task) (resp : Response Envelope) :
  apiv2.post_tasks task db = (resp, db') →
  http_status resp = HTTP_201_CREATED →
  ∃ t : Task,
    body resp = inr (ok (DataTask t))
    ∧ task_title t = TaskCreate.task_title task
    ∧ task_desc t = TaskCreate.task_desc task
    ∧ is_finished t = TaskCreate.is_finished task
    ∧ apiv1.get_task (task_id t) db'
      = ({| http_status := HTTP_200_OK; body := inr (ok (DataTask t)) |}, db')
    ∧ apiv2.get_task (task_id t) db'
      = ({| http_status := HTTP_200_OK; body := inr (ok (DataTask t)) |}, db').
Proof.
  intros Hrun Hst.
  destruct (post_tasks_created _ _ _ _ Hrun Hst) as [-> ->].
  exists (created task db). split_and!; [done..| |];
    apply (get_task_found _ _ (length db));
    apply find_task_by_id_snoc_new, new_task_id_fresh.
Qed.

Lemma create_task_v2_then_get_task_witness :
  ∃ t : Task,
    task_title t = lit " T "
    ∧ http_status
        (fst (apiv2.get_task (task_id t)
                (snd (apiv2.post_tasks
                        (TaskCreate.mk (lit " T ") (lit "D") None) task_db))))
      = HTTP_200_OK.
Proof.
  destruct (create_task_v2_then_get_task
              (TaskCreate.mk (lit " T ") (lit "D") None) task_db
              (snd (apiv2.post_tasks
                      (TaskCreate.mk (lit " T ") (lit "D") None) task_db))
              (fst (apiv2.post_tasks
                      (TaskCreate.mk (lit " T ") (lit "D") None) task_db)))
    as (t & _ & Ht & _ & _ & _ & H2); [reflexivity | reflexivity |].
  exists t. split; [exact Ht|]. exact (f_equal (λ x, http_status (fst x)) H2).
Defined.

(** A create changes no read-one of another id: for every id but the new
    one, both routes answer on the store after the create what they
    answered before it, whether the create succeeded or not. *)
Theorem create_task_v2_keeps_other_reads
    (task : TaskCreate.t) (db : list Task) (id' : Z) :
  id' ≠ new_task_id db →
  fst (apiv1.get_task id' (snd (apiv2.post_tasks task db)))
  = fst (apiv1.get_task id' db)
  ∧ fst (apiv2.get_task id' (snd (apiv2.post_tasks task db)))
    = fst (apiv2.get_task id' db).
Proof.
  intros Hne. apply get_task_congr. f_equal.
  unfold apiv2.post_tasks. rewrite route_snd.
  destruct (create_task_v2_snd task db) as [-> | ->]; [done|].
  apply find_task_by_id_snoc_other. simpl. congruence.
Qed.

Lemma create_task_v2_keeps_other_reads_witness :
  fst (apiv2.get_task 1
         (snd (apiv2.post_tasks (TaskCreate.mk (lit "T") (lit "D") None)
                 task_db)))
  = fst (apiv2.get_task 1 task_db).
Proof.
  apply (create_task_v2_keeps_other_reads
           (TaskCreate.mk (lit "T") (lit "D") None) task_db 1).
  discriminate.
Defined.

(** ** Update *)

(** After a successful update, a read-one of the id answers 200 with the
    record the update returned, on both routes. *)
Theorem update_task_v2_then_get_task
    (id : Z) (task : TaskUpdate.t) (db db' : list Task)
    (resp : Response Envelope) :
  apiv2.patch_task id task db = (resp, db') →
  http_status resp = HTTP_200_OK →
  ∃ t' : Task,
    body resp = inr (ok (DataTask t'))
    ∧ task_id t' = id
    ∧ apiv1.get_task id db'
      = ({| http_status := HTTP_200_OK; body := inr (ok (DataTask t')) |}, db')
    ∧ apiv2.get_task id db'
      = ({| http_status := HTTP_200_OK; body := inr (ok (DataTask t')) |}, db').
Proof.
  unfold apiv2.patch_task, route.
  destruct (update_task_v2 id task db) as [[e|exn] db1] eqn:Hrun;
    intros [= <- <-] Hst; simpl in *.
  - destruct (find_task_by_id id db) as [[i t]|] eqn:Hf.
    + destruct (update_task_v2_returned _ _ _ _ _ _ _ Hf Hrun)
        as (t' & -> & -> & Hid).
      apply find_task_by_id_Some in Hf as Hi. destruct Hi as [_ Hidt].
      exists t'. split_and!; [done | congruence | |];
        by apply (get_task_found _ _ i), (find_task_by_id_insert_same _ _ _ t).
    + revert Hrun. run. by rewrite Hf.
  - revert Hrun Hst. run.
    destruct (find_task_by_id id db) as [[i t]|]; [|by intros [= <- <-]].
    destruct task as [[title|] [desc|] [fin|]]; simpl;
      repeat (match goal with
              | |- context [truthy ?s] => destruct (truthy s); simpl
              end);
      by intros [= <- <-].
Qed.

Lemma update_task_v2_then_get_task_witness :
  ∃ t' : Task,
    is_finished t' = Some true
    ∧ apiv2.get_task 1
        (snd (apiv2.patch_task 1 (TaskUpdate.mk None None (Some true)) task_db))
      = ({| http_status := HTTP_200_OK; body := inr (ok (DataTask t')) |},
         snd (apiv2.patch_task 1 (TaskUpdate.mk None None (Some true)) task_db)).
Proof.
  destruct (update_task_v2_then_get_task 1
              (TaskUpdate.mk None None (Some true)) task_db
              (snd (apiv2.patch_task 1 (TaskUpdate.mk None None (Some true))
                      task_db))
              (fst (apiv2.patch_task 1 (TaskUpdate.mk None None (Some true))
                      task_db)))
    as (t' & Hbody & _ & _ & H2); [reflexivity | reflexivity |].
  exists t'. split; [|exact H2]. by injection Hbody as <-.
Defined.

(** An update writes one task only: for every other id, both read-one
    routes answer on the store after the update what they answered before
    it, whatever the payload and whether the update answered 200, 400 or
    404. *)
Theorem update_task_v2_keeps_other_reads
    (id id' : Z) (task : TaskUpdate.t) (db : list Task) :
  id' ≠ id →
  fst (apiv1.get_task id' (snd (apiv2.patch_task id task db)))
  = fst (apiv1.get_task id' db)
  ∧ fst (apiv2.get_task id' (snd (apiv2.patch_task id task db)))
    = fst (apiv2.get_task id' db).
Proof.
  intros Hne. apply get_task_congr. f_equal.
  unfold apiv2.patch_task. rewrite route_snd.
  destruct (find_task_by_id id db) as [[i t]|] eqn:Hf.
  - destruct (update_task_v2_store id task db i t Hf) as (t' & -> & Hid).
    apply find_task_by_id_Some in Hf as [Hi Hidt].
    apply (find_task_by_id_insert_other _ _ _ t); [done | done | congruence].
  - run. by rewrite Hf.
Qed.

Lemma update_task_v2_keeps_other_reads_witness :
  fst (apiv2.get_task 1
         (snd (apiv2.patch_task 2 (TaskUpdate.mk (Some (lit "T")) None None)
                 (task_db ++ [ {| task_id := 2; task_title := lit "A";
                                  task_desc := lit "B";
                                  is_finished := None |} ]))))
  = fst (apiv2.get_task 1
           (task_db ++ [ {| task_id := 2; task_title := lit "A";
                            task_desc := lit "B"; is_finished := None |} ])).
Proof.
  apply (update_task_v2_keeps_other_reads 2 1
           (TaskUpdate.mk (Some (lit "T")) None None)).
  discriminate.
Defined.

(** An update never adds, removes, renumbers or reorders tasks: the ids
    of the store, in order, are the same after it, whether it answered 200,
    400 or 404. *)
Theorem update_task_v2_keeps_ids (id : Z) (task : TaskUpdate.t) (db : list Task) :
  ids (snd (apiv2.patch_task id task db)) = ids db
  ∧ length (snd (apiv2.patch_task id task db)) = length db.
Proof.
  unfold apiv2.patch_task. rewrite route_snd.
  pose proof (update_task_v2_ids id task db) as Hids. split; [done|].
  apply (f_equal length) in Hids. unfold ids in Hids.
  by rewrite !length_fmap in Hids.
Qed.

(** An update whose title is supplied and blank is refused with 400 and
    ["Task title cannot be empty"] before anything is written: the store
    is the same list afterwards, whatever description and done flag the
    payload carries. *)
Theorem update_task_v2_refuses_blank_title
    (id : Z) (db : list Task) (title : str)
    (desc : option str) (done : option bool) :
  id ∈ ids db →
  strip title = [] →
  apiv2.patch_task id (TaskUpdate.mk (Some title) desc done) db
  = ({| http_status := 400;
        body := inl {| error := "Task title cannot be empty" |} |},
     db).
Proof.
  intros (i & t & Hf)%find_task_by_id_elem_of Htitle.
  run. by rewrite Hf, Htitle.
Qed.

Lemma update_task_v2_refuses_blank_title_witness :
  apiv2.patch_task 1
    (TaskUpdate.mk (Some (lit "  ")) (Some (lit "D")) (Some true)) task_db
  = ({| http_status := 400;
        body := inl {| error := "Task title cannot be empty" |} |},
     task_db).
Proof.
  apply (update_task_v2_refuses_blank_title 1 task_db (lit "  ") (Some (lit "D"))
           (Some true)); [by left | reflexivity].
Defined.

(** ** Delete *)

(** A delete of an id no task has answers 404 with
    [{"error": "Task not found"}] and leaves the store as it is. *)
Theorem delete_task_v2_missing_id (id : Z) (db : list Task) :
  id ∉ ids db →
  apiv2.delete_task id db
  = ({| http_status := HTTP_404_NOT_FOUND;
        body := inl {| error := "Task not found" |} |},
     db).
Proof.
  intros Hf%find_task_by_id_None. unfold apiv2.delete_task, route.
  by rewrite delete_task_v2_missing.
Qed.

Lemma delete_task_v2_missing_id_witness :
  apiv2.delete_task 0 task_db
  = ({| http_status := HTTP_404_NOT_FOUND;
        body := inl {| error := "Task not found" |} |},
     task_db).
Proof.
  apply (delete_task_v2_missing_id 0 task_db).
  intros H. inversion H as [|? ? ? H']; inversion H'.
Defined.

(** In a store the service can be in, a delete of an id some task has
    takes exactly one task out, and the same delete sent again answers 404
    and changes nothing. *)
Theorem delete_task_v2_twice (id : Z) (db : list Task) :
  reachable db →
  id ∈ ids db →
  ∃ db' : list Task,
    apiv2.delete_task id db
    = ({| http_status := HTTP_204_NO_CONTENT; body := inr tt |}, db')
    ∧ S (length db') = length db
    ∧ apiv2.delete_task id db'
      = ({| http_status := HTTP_404_NOT_FOUND;
            body := inl {| error := "Task not found" |} |},
         db').
Proof.
  intros Hnd%reachable_NoDup Hin.
  destruct (find_task_by_id_elem_of id db Hin) as (i & t & Hf).
  apply find_task_by_id_Some in Hf as Hi. destruct Hi as [Hi Hid].
  exists (delete i db). split_and!.
  - unfold apiv2.delete_task, route.
    by rewrite (delete_task_v2_found id db i t).
  - rewrite length_delete by done.
    apply lookup_lt_Some in Hi. lia.
  - unfold apiv2.delete_task, route. rewrite delete_task_v2_missing; [done|].
    apply find_task_by_id_None. rewrite <-Hid.
    by apply ids_delete_not_elem_of.
Qed.

Lemma delete_task_v2_twice_witness :
  apiv2.delete_task 1 (snd (apiv2.delete_task 1 task_db))
  = ({| http_status := HTTP_404_NOT_FOUND;
        body := inl {| error := "Task not found" |} |},
     []).
Proof.
  destruct (delete_task_v2_twice 1 task_db) as (db' & Hdel & _ & Hagain);
    [apply reachable_init | by left |].
  rewrite Hdel. simpl. injection Hdel as <-. exact Hagain.
Defined.

(** A delete takes one task out and touches no other: for every other
    id, both read-one routes answer on the store after the delete what
    they answered before it. *)
Theorem delete_task_v2_keeps_other_reads (id id' : Z) (db : list Task) :
  id' ≠ id →
  fst (apiv1.get_task id' (snd (apiv2.delete_task id db)))
  = fst (apiv1.get_task id' db)
  ∧ fst (apiv2.get_task id' (snd (apiv2.delete_task id db)))
    = fst (apiv2.get_task id' db).
Proof.
  intros Hne. apply get_task_congr.
  unfold apiv2.delete_task. rewrite route_snd.
  destruct (find_task_by_id id db) as [[i t]|] eqn:Hf.
  - rewrite (delete_task_v2_found id db i t) by done. simpl.
    by apply (find_task_by_id_delete id id' db i t).
  - by rewrite delete_task_v2_missing.
Qed.

Lemma delete_task_v2_keeps_other_reads_witness :
  fst (apiv2.get_task 2
         (snd (apiv2.delete_task 1
                 (task_db ++ [ {| task_id := 2; task_title := lit "A";
                                  task_desc := lit "B";
                                  is_finished := None |} ]))))
  = fst (apiv2.get_task 2
           (task_db ++ [ {| task_id := 2; task_title := lit "A";
                            task_desc := lit "B"; is_finished := None |} ])).
Proof.
  apply (delete_task_v2_keeps_other_reads 1 2). discriminate.
Defined.

(** Ids are handed out again: when the task a create just made is
    deleted, the store is the one before the create, and the next
    successful create gives its task the id of the deleted one. *)
Theorem create_task_v2_reuses_deleted_id
    (task : TaskCreate.t) (db db1 : list Task) (resp : Response Envelope) :
  apiv2.post_tasks task db = (resp, db1) →
  http_status resp = HTTP_201_CREATED →
  ∃ t1 : Task,
    body resp = inr (ok (DataTask t1))
    ∧ apiv2.delete_task (task_id t1) db1
      = ({| http_status := HTTP_204_NO_CONTENT; body := inr tt |}, db)
    ∧ ∀ (task2 : TaskCreate.t) (db2 : list Task) (resp2 : Response Envelope),
        apiv2.post_tasks task2 (snd (apiv2.delete_task (task_id t1) db1))
        = (resp2, db2) →
        http_status resp2 = HTTP_201_CREATED →
        ∃ t2 : Task,
          body resp2 = inr (ok (DataTask t2)) ∧ task_id t2 = task_id t1.
Proof.
  intros Hrun Hst.
  destruct (post_tasks_created _ _ _ _ Hrun Hst) as [-> ->].
  assert (apiv2.delete_task (new_task_id db) (db ++ [created task db])
          = ({| http_status := HTTP_204_NO_CONTENT; body := inr tt |}, db))
    as Hdel.
  { unfold apiv2.delete_task, route.
    rewrite (delete_task_v2_found _ _ (length db) (created task db)).
    - by rewrite delete_middle, app_nil_r.
    - apply (find_task_by_id_snoc_new db (created task db)), new_task_id_fresh. }
  exists (created task db). split_and!; [done | done |].
  intros task2 db2 resp2. simpl. rewrite Hdel. simpl. intros Hrun2 Hst2.
  destruct (post_tasks_created _ _ _ _ Hrun2 Hst2) as [-> ->]. by eexists.
Qed.

Lemma create_task_v2_reuses_deleted_id_witness :
  ∃ t1 : Task,
    task_id t1 = 2
    ∧ apiv2.delete_task 2
        (snd (apiv2.post_tasks (TaskCreate.mk (lit "T") (lit "D") None)
                task_db))
      = ({| http_status := HTTP_204_NO_CONTENT; body := inr tt |}, task_db).
Proof.
  destruct (create_task_v2_reuses_deleted_id
              (TaskCreate.mk (lit "T") (lit "D") None) task_db
              (snd (apiv2.post_tasks (TaskCreate.mk (lit "T") (lit "D") None)
                      task_db))
              (fst (apiv2.post_tasks (TaskCreate.mk (lit "T") (lit "D") None)
                      task_db)))
    as (t1 & Hbody & Hdel & _); [reflexivity | reflexivity |].
  exists t1. injection Hbody as <-. split; [reflexivity | exact Hdel].
Defined.

(** Only a delete takes a task out: after any requests but deletes, the
    ids the store had are still there, in the same places, with the ids of
    the tasks created since behind them. *)
Theorem exec_all_keeps_ids_without_delete (rs : list Request) (db : list Task) :
  forallb (λ r, negb (is_delete r)) rs = true →
  ids db `prefix_of` ids (exec_all rs db)
  ∧ (length db ≤ length (exec_all rs db))%nat.
Proof.
  intros Hp%(exec_all_ids_prefix rs db). split; [done|].
  apply prefix_length in Hp. unfold ids in Hp. by rewrite !length_fmap in Hp.
Qed.

Lemma exec_all_keeps_ids_without_delete_witness :
  ids task_db
  `prefix_of` ids (exec_all
                     [PostTask (TaskCreate.mk (lit "T") (lit "D") None);
                      PatchTask 1 (TaskUpdate.mk (Some (lit " ")) None None);
                      GetTasks]
                     task_db).
Proof.
  apply (exec_all_keeps_ids_without_delete
           [PostTask (TaskCreate.mk (lit "T") (lit "D") None);
            PatchTask 1 (TaskUpdate.mk (Some (lit " ")) None None);
            GetTasks]
           task_db).
  reflexivity.
Defined.

(** ** Invariants of the store *)

Lemma exec_nonblank (r : Request) (db : list Task) :
  Forall nonblank db → Forall nonblank (exec r db).
Proof.
  intros Hdb. destruct r as [id|id|task|id task|id|]; simpl;
    unfold apiv1.get_task, apiv2.get_task, apiv2.post_tasks,
      apiv2.patch_task, apiv2.delete_task, apiv2.get_tasks; rewrite route_snd.
  - by rewrite get_task_v1_snd.
  - by rewrite get_task_v2_snd.
  - run. destruct (truthy (strip (TaskCreate.task_title task))) eqn:Ht;
      destruct (truthy (strip (TaskCreate.task_desc task))) eqn:Hd;
      simpl; try done.
    apply Forall_app. split; [done|]. apply Forall_singleton.
    split; simpl; by apply truthy_true.
  - run. destruct (find_task_by_id id db) as [[i t]|] eqn:Hf; [|done].
    apply find_task_by_id_Some in Hf as [Hi _].
    destruct (Forall_lookup_1 _ _ _ _ Hdb Hi) as [Pt Pd].
    destruct task as [[title|] [desc|] [fin|]]; simpl;
      repeat (match goal with
              | |- context [truthy ?s] => destruct (truthy s) eqn:?; simpl
              end);
      repeat (apply Forall_insert); try done;
      (split; simpl; first [by apply truthy_true | done]).
  - destruct (find_task_by_id id db) as [[i t]|] eqn:Hf.
    + rewrite (delete_task_v2_found id db i t) by done. by apply Forall_delete.
    + by rewrite delete_task_v2_missing.
  - by rewrite get_all_tasks_v2_snd.
Qed.

Lemma StronglySorted_delete (l : list Z) (i : nat) :
  StronglySorted Z.lt l → StronglySorted Z.lt (delete i l).
Proof.
  revert i. induction l as [|x l IH]; intros [|i]; simpl; try done.
  - by intros [_ ?]%StronglySorted_cons.
  - intros [Hx Hl]%StronglySorted_cons. apply StronglySorted_cons.
    split; [by apply Forall_delete | by apply IH].
Qed.

Lemma new_task_id_pos (db : list Task) :
  Forall (λ x, 1 ≤ x) (ids db) → 1 ≤ new_task_id db.
Proof.
  intros Hpos. destruct db as [|t db]; [done|].
  destruct (new_task_id_max (t :: db)) as (m & Hm & _ & ->); [done|].
  rewrite Forall_forall in Hpos. specialize (Hpos m Hm). lia.
Qed.

(** Every request keeps the ids of the store increasing along the list,
    and positive. *)
Lemma exec_sorted (r : Request) (db : list Task) :
  StronglySorted Z.lt (ids db) ∧ Forall (λ x, 1 ≤ x) (ids db) →
  StronglySorted Z.lt (ids (exec r db))
  ∧ Forall (λ x, 1 ≤ x) (ids (exec r db)).
Proof.
  intros [Hs Hpos]. destruct r as [id|id|task|id task|id|]; simpl;
    unfold apiv1.get_task, apiv2.get_task, apiv2.post_tasks,
      apiv2.patch_task, apiv2.delete_task, apiv2.get_tasks; rewrite route_snd.
  - by rewrite get_task_v1_snd.
  - by rewrite get_task_v2_snd.
  - destruct (create_task_v2_snd task db) as [-> | ->]; [done|].
    unfold ids in *. rewrite fmap_app. simpl. split.
    + apply StronglySorted_app_2; [|done|].
      * intros x1 x2 Hx1 ->%list_elem_of_singleton. by apply new_task_id_gt.
      * repeat constructor.
    + apply Forall_app. split; [done|]. apply Forall_singleton.
      by apply new_task_id_pos.
  - by rewrite update_task_v2_ids.
  - destruct (find_task_by_id id db) as [[i t]|] eqn:Hf.
    + rewrite (delete_task_v2_found id db i t) by done. simpl.
      rewrite ids_delete. split;
        [by apply StronglySorted_delete | by apply Forall_delete].
    + by rewrite delete_task_v2_missing.
  - by rewrite get_all_tasks_v2_snd.
Qed.

Lemma StronglySorted_last_max (l : list Z) (m : Z) :
  StronglySorted Z.lt l → last l = Some m → ∀ x, x ∈ l → x ≤ m.
Proof.
  intros Hs [l' ->]%last_Some x Hx.
  apply StronglySorted_app in Hs as (Hlt & _ & _).
  apply elem_of_app in Hx as [Hx | ->%list_elem_of_singleton]; [|lia].
  specialize (Hlt x m Hx). rewrite list_elem_of_singleton in Hlt.
  specialize (Hlt eq_refl). lia.
Qed.

(** After any sequence of requests on the seeded store, every task of
    the store has a title and a description that are non-empty after
    trimming: the 400 paths of create and update let no blank value in, not
    even an update that fails after it wrote the title. *)
Theorem task_db_never_blank (rs : list Request) :
  Forall nonblank (exec_all rs task_db)
  ∧ ∀ t : Task,
      t ∈ exec_all rs task_db →
      forallb isspace (task_title t) = false
      ∧ forallb isspace (task_desc t) = false.
Proof.
  assert (Forall nonblank (exec_all rs task_db)) as H.
  { unfold exec_all.
    assert (Forall nonblank task_db) as H0.
    { apply Forall_singleton. split; by vm_compute. }
    revert H0. generalize task_db.
    induction rs as [|r rs IH]; intros db Hdb; simpl; [done|].
    by apply IH, exec_nonblank. }
  split; [done|]. intros t Ht. rewrite Forall_forall in H.
  destruct (H t Ht) as [H1 H2]. rewrite strip_nil in H1, H2.
  by split; apply not_true_is_false.
Qed.

(** After any sequence of requests on the seeded store, the ids grow
    along the list and are at least 1, so that the listing is in order of
    id, and the next create takes the id after that of the last task of
    the list. *)
Theorem task_db_ids_increasing (rs : list Request) :
  let db := exec_all rs task_db in
  StronglySorted Z.lt (ids db)
  ∧ Forall (λ x, 1 ≤ x) (ids db)
  ∧ ∀ m : Z, last (ids db) = Some m → new_task_id db = m + 1.
Proof.
  intros db.
  assert (StronglySorted Z.lt (ids db) ∧ Forall (λ x, 1 ≤ x) (ids db))
    as [Hs Hpos].
  { unfold db, exec_all.
    assert (StronglySorted Z.lt (ids task_db)
            ∧ Forall (λ x, 1 ≤ x) (ids task_db)) as H0.
    { split; [repeat constructor | by apply Forall_singleton]. }
    revert H0. generalize task_db.
    induction rs as [|r rs IH]; intros db0 Hdb; simpl; [done|].
    by apply IH, exec_sorted. }
  split_and!; [done..|]. intros m Hm.
  destruct (new_task_id_max db) as (m' & Hm' & Hmax & ->).
  { intros Hnil. by rewrite Hnil in Hm. }
  pose proof (StronglySorted_last_max _ _ Hs Hm m' Hm').
  pose proof (Hmax m (last_Some_elem_of _ _ Hm)). lia.
Qed.
